(** * Calculadora-120: the grid position-sizing calculator of [calc.py]

    A shallow embedding of the four computation stages of [calc.py]
    ([generar_precios], [asignar_lotes], [calcular_acumulados],
    [validar_precio_final]) and of the body of [main] that chains them,
    followed by the properties of the specification proved about them.

    Numbers.  A Python float is modelled as an exact rational ([Q]); the
    outcome of a division, which pandas evaluates without raising, is a
    [num]: a rational or one of the IEEE special values.  Rounding error of
    binary floating point is outside the model, and a zero carries no sign.
    Integers ([PASO], [TOTAL_UNIDADES], loop indices) are [Z] and [nat]. *)

From Stdlib Require Import ZArith QArith Qround Qabs Lqa Lia List Bool.
Import ListNotations.
Open Scope Q_scope.

(** ** Global constants *)

Definition LOTES_A_UNIDADES : Q := 100.
Definition PASO : Z := 5.
Definition TOTAL_UNIDADES : Z := 120.
Definition DIVISOR_LOTE : Q := 1.5932.

(** ** Results of float division: rationals and the IEEE special values *)

Inductive num : Type :=
| Fin (q : Q)
| PInf
| NInf
| NaN.

(** Equality of values: [==] on rationals, identity on the special values.
    ([NaN] is related to itself: this is equality of results, not the
    comparison operator of the language.) *)
Definition num_eq (a b : num) : Prop :=
  match a, b with
  | Fin x, Fin y => x == y
  | PInf, PInf | NInf, NInf | NaN, NaN => True
  | _, _ => False
  end.

Definition es_finito (a : num) : bool :=
  match a with Fin _ => true | _ => false end.

(** [a / b] on finite operands; a zero divisor gives [NaN] or an infinity. *)
Definition ndiv (a b : Q) : num :=
  if Qeq_bool b 0 then
    if Qeq_bool a 0 then NaN
    else if Qle_bool 0 a then PInf else NInf
  else Fin (a / b).

Definition nsub (a b : num) : num :=
  match a, b with
  | NaN, _ | _, NaN => NaN
  | Fin x, Fin y => Fin (x - y)
  | Fin _, PInf => NInf
  | Fin _, NInf => PInf
  | PInf, PInf => NaN
  | PInf, _ => PInf
  | NInf, NInf => NaN
  | NInf, _ => NInf
  end.

(** An infinity times a finite value: the sign rule, and [NaN] at zero. *)
Definition inf_por (positivo : bool) (y : Q) : num :=
  if Qeq_bool y 0 then NaN
  else if Qle_bool 0 y then (if positivo then PInf else NInf)
  else (if positivo then NInf else PInf).

Definition nmul (a b : num) : num :=
  match a, b with
  | NaN, _ | _, NaN => NaN
  | Fin x, Fin y => Fin (x * y)
  | PInf, Fin y => inf_por true y
  | NInf, Fin y => inf_por false y
  | Fin x, PInf => inf_por true x
  | Fin x, NInf => inf_por false x
  | PInf, PInf | NInf, NInf => PInf
  | PInf, NInf | NInf, PInf => NInf
  end.

Definition nabs (a : num) : num :=
  match a with
  | Fin x => Fin (Qabs x)
  | PInf | NInf => PInf
  | NaN => NaN
  end.

(** ** List helpers standing for the pandas column operations *)

(** Element-wise operation on two columns of one frame (always aligned). *)
Fixpoint map2 {A B C : Type} (f : A -> B -> C) (l : list A) (m : list B) : list C :=
  match l, m with
  | x :: l', y :: m' => f x y :: map2 f l' m'
  | _, _ => []
  end.

(** [Series.cumsum]: running sums, the first entry being the first element. *)
Fixpoint cumsum_desde (acc : Q) (l : list Q) : list Q :=
  match l with
  | [] => []
  | x :: r => (acc + x) :: cumsum_desde (acc + x) r
  end.

Definition cumsum (l : list Q) : list Q :=
  match l with
  | [] => []
  | x :: r => x :: cumsum_desde x r
  end.

(** [Series.iloc[-1]]: the last entry; [None] stands for the IndexError
    raised on an empty column. *)
Fixpoint iloc_ultimo {A : Type} (l : list A) : option A :=
  match l with
  | [] => None
  | [x] => Some x
  | _ :: r => iloc_ultimo r
  end.

(** [Series.round(k)]: numpy rounds [x] to [rint (x * 10^k) / 10^k], where
    [rint] rounds to the nearest integer and a tie goes to the even one. *)
Definition rint (q : Q) : Z :=
  let f := Qfloor q in
  match Qcompare (q - inject_Z f) (1 # 2) with
  | Lt => f
  | Gt => (f + 1)%Z
  | Eq => if Z.even f then f else (f + 1)%Z
  end.

Definition redondear (k : nat) (q : Q) : Q :=
  inject_Z (rint (q * inject_Z (10 ^ Z.of_nat k))) / inject_Z (10 ^ Z.of_nat k).

Definition nredondear (k : nat) (a : num) : num :=
  match a with
  | Fin q => Fin (redondear k q)
  | _ => a
  end.

(** ** Stage 1: [generar_precios] *)

(** [None] stands for the ZeroDivisionError of [total_unidades // paso] at
    [paso = 0].  [//] on integers is floor division, as [Z.div]; [range n]
    is empty for [n <= 0], as [seq 0 (Z.to_nat n)]. *)
Definition generar_precios (precio_inicial : Q) (total_unidades paso : Z)
  : option (list Q) :=
  if (paso =? 0)%Z then None
  else
    let numero_puntos := (total_unidades / paso + 1)%Z in
    Some (map (fun i : nat => precio_inicial - inject_Z (Z.of_nat i * paso))
              (seq 0 (Z.to_nat numero_puntos))).

(** ** Stage 2: [asignar_lotes] *)

(** The [if]/[elif] cascade of the loop body: the value appended to [lotes]
    for one [diferencia]. *)
Definition lote_bruto (diferencia : Q) : Q :=
  if Qle_bool 0 diferencia && Qle_bool diferencia 15 then 0.5
  else if Qeq_bool diferencia 20 then 0.0
  else if Qeq_bool diferencia 25 || Qeq_bool diferencia 30 then 2.0
  else if Qle_bool 35 diferencia && Qle_bool diferencia 55 then
    if Qeq_bool diferencia 55 then 0.0 else 0.625
  else if Qeq_bool diferencia 60 then 6.0
  else if Qle_bool 65 diferencia && Qle_bool diferencia 90 then 2.0
  else if Qle_bool 91 diferencia && Qle_bool diferencia 94 then 1.5
  else if Qle_bool 95 diferencia && Qle_bool diferencia 120 then 3.375
  else 0.5.

Definition asignar_lotes (precio_inicial : Q) (precios : list Q) : list Q :=
  let lotes := map (fun precio => lote_bruto (precio_inicial - precio)) precios in
  map (fun lote => lote / DIVISOR_LOTE) lotes.

(** The same cascade, recording which [append] statement is reached. *)
Inductive Rama : Type :=
| R_0_15 | R_20 | R_25_30 | R_35_55_es55 | R_35_55_resto | R_60
| R_65_90 | R_91_94 | R_95_120 | R_else.

Definition rama (diferencia : Q) : Rama :=
  if Qle_bool 0 diferencia && Qle_bool diferencia 15 then R_0_15
  else if Qeq_bool diferencia 20 then R_20
  else if Qeq_bool diferencia 25 || Qeq_bool diferencia 30 then R_25_30
  else if Qle_bool 35 diferencia && Qle_bool diferencia 55 then
    if Qeq_bool diferencia 55 then R_35_55_es55 else R_35_55_resto
  else if Qeq_bool diferencia 60 then R_60
  else if Qle_bool 65 diferencia && Qle_bool diferencia 90 then R_65_90
  else if Qle_bool 91 diferencia && Qle_bool diferencia 94 then R_91_94
  else if Qle_bool 95 diferencia && Qle_bool diferencia 120 then R_95_120
  else R_else.

Definition lote_de_rama (r : Rama) : Q :=
  match r with
  | R_0_15 => 0.5
  | R_20 => 0.0
  | R_25_30 => 2.0
  | R_35_55_es55 => 0.0
  | R_35_55_resto => 0.625
  | R_60 => 6.0
  | R_65_90 => 2.0
  | R_91_94 => 1.5
  | R_95_120 => 3.375
  | R_else => 0.5
  end.


(** ** The data frame *)

(** The frame of [crear_dataframe] with the six columns that
    [calcular_acumulados] adds; a column not yet assigned is empty.  The
    columns fed by sums and products of finite values hold rationals, the
    columns fed by the break-even division hold [num]. *)
Record DataFrame : Type := mkDF {
  Precio : list Q;
  Lotes : list Q;
  Lotes_Acumulados : list Q;
  Costo_Acumulado : list Q;
  Break_Even : list num;
  Flotante : list num;
  Puntos_de_salida : list num;
  Ganancia_Potencial : list num
}.

(** [None] stands for the ValueError pandas raises on columns of different
    lengths. *)
Definition crear_dataframe (precios lotes : list Q) : option DataFrame :=
  if (length precios =? length lotes)%nat
  then Some (mkDF precios lotes [] [] [] [] [] [])
  else None.

(** ** Stage 3: [calcular_acumulados] *)

(** One column assignment per line of the source, each reading the columns
    assigned before it. *)
Definition calcular_acumulados (df : DataFrame) (precio_inicial : Q) : DataFrame :=
  let lotes_acumulados := cumsum (Lotes df) in
  let costo_acumulado :=
    cumsum (map2 (fun precio lote => precio * lote * LOTES_A_UNIDADES)
                 (Precio df) (Lotes df)) in
  let break_even :=
    map2 (fun costo la => ndiv costo (la * LOTES_A_UNIDADES))
         costo_acumulado lotes_acumulados in
  let flotante :=
    map2 (fun d la => nmul d (Fin (la * LOTES_A_UNIDADES)))
         (map2 (fun precio be => nsub (Fin precio) be) (Precio df) break_even)
         lotes_acumulados in
  let puntos_de_salida :=
    map nabs (map2 (fun precio be => nsub (Fin precio) be) (Precio df) break_even) in
  let ganancia_potencial :=
    map2 (fun d la => nmul d (Fin (la * LOTES_A_UNIDADES)))
         (map (fun be => nsub (Fin precio_inicial) be) break_even)
         lotes_acumulados in
  mkDF (Precio df) (Lotes df) lotes_acumulados costo_acumulado
       break_even flotante puntos_de_salida ganancia_potencial.

(** ** Messages handed to the presentation layer *)

Inductive Mensaje : Type :=
| ErrorLongitud
| ErrorPrecioFinal (ultimo_precio_calculado precio_esperado : Q)
| Tabla (df : DataFrame)
| Resumen (break_even_final flotante_total ganancia_potencial_total : num)
          (total_lotes_acumulados : Q).

(** ** Stage 4: [validar_precio_final] *)

(** The result and the messages given to [st.error]; [None] is the
    IndexError of [iloc[-1]] on an empty frame. *)
Definition validar_precio_final (df : DataFrame) (precio_esperado : Q)
  : option (bool * list Mensaje) :=
  match iloc_ultimo (Precio df) with
  | None => None
  | Some ultimo_precio_calculado =>
      if negb (Qeq_bool ultimo_precio_calculado precio_esperado)
      then Some (false, [ErrorPrecioFinal ultimo_precio_calculado precio_esperado])
      else Some (true, [])
  end.

(** ** The body of [main] once the button is pressed *)

(** The eight [round] assignments of [main]. *)
Definition redondear_columnas (df : DataFrame) : DataFrame :=
  mkDF (map (redondear 2) (Precio df))
       (map (redondear 4) (Lotes df))
       (map (redondear 4) (Lotes_Acumulados df))
       (map (redondear 2) (Costo_Acumulado df))
       (map (nredondear 2) (Break_Even df))
       (map (nredondear 2) (Flotante df))
       (map (nredondear 2) (Puntos_de_salida df))
       (map (nredondear 2) (Ganancia_Potencial df)).

Definition bind {A B : Type} (m : option A) (k : A -> option B) : option B :=
  match m with
  | Some a => k a
  | None => None
  end.

Notation "x <- m ;; k" := (bind m (fun x => k))
  (at level 61, m at next level, right associativity).

(** [main] with the two globals it reads as parameters; the result is the
    list of messages shown, [None] an uncaught exception.  The summary
    numbers are formatted with two and four decimals when written. *)
Definition calcular (total_unidades paso : Z) (precio_inicial : Q)
  : option (list Mensaje) :=
  precios <- generar_precios precio_inicial total_unidades paso ;;
  let lotes := asignar_lotes precio_inicial precios in
  if negb (length precios =? length lotes)%nat then Some [ErrorLongitud]
  else
    df <- crear_dataframe precios lotes ;;
    let df := calcular_acumulados df precio_inicial in
    let df := redondear_columnas df in
    let precio_esperado := precio_inicial - inject_Z total_unidades in
    v <- validar_precio_final df precio_esperado ;;
    let (es_valido, errores) := v in
    if es_valido then
      break_even_final <- iloc_ultimo (Break_Even df) ;;
      flotante_total <- iloc_ultimo (Flotante df) ;;
      ganancia_potencial_total <- iloc_ultimo (Ganancia_Potencial df) ;;
      total_lotes_acumulados <- iloc_ultimo (Lotes_Acumulados df) ;;
      Some (errores ++
            [Tabla df;
             Resumen (nredondear 2 break_even_final)
                     (nredondear 2 flotante_total)
                     (nredondear 2 ganancia_potencial_total)
                     (redondear 4 total_lotes_acumulados)])
    else Some errores.

Definition main (precio_inicial : Q) : option (list Mensaje) :=
  calcular TOTAL_UNIDADES PASO precio_inicial.

(** ** The specification's wording of the stages, for comparison *)

(** The rule table of the specification: an ordered list of distance
    conditions with their raw lot, read first-match-wins, and the default
    for a distance that no rule matches. *)
Definition entre (a b d : Q) : bool := Qle_bool a d && Qle_bool d b.

Definition tabla_reglas : list ((Q -> bool) * Q) :=
  [ (entre 0 15, 0.5);
    (fun d => Qeq_bool d 20, 0.0);
    (fun d => Qeq_bool d 25 || Qeq_bool d 30, 2.0);
    (fun d => entre 35 55 d && negb (Qeq_bool d 55), 0.625);
    (fun d => Qeq_bool d 55, 0.0);
    (fun d => Qeq_bool d 60, 6.0);
    (entre 65 90, 2.0);
    (entre 91 94, 1.5);
    (entre 95 120, 3.375) ].

Definition lote_por_defecto : Q := 0.5.

Fixpoint primera_coincidencia (reglas : list ((Q -> bool) * Q)) (d : Q) : Q :=
  match reglas with
  | [] => lote_por_defecto
  | (cond, lote) :: resto => if cond d then lote else primera_coincidencia resto d
  end.

Definition allocateLots_spec (start : Q) (prices : list Q) : list Q :=
  map (fun price => primera_coincidencia tabla_reglas (start - price) / DIVISOR_LOTE)
      prices.

(** The accumulator of the specification: a left-to-right fold over the
    (price, lot) rows that carries the two running totals. *)
Record Row : Type := mkRow {
  price : Q;
  lot : Q;
  cumulativeLot : Q;
  cumulativeCost : Q;
  breakEven : num;
  floatingValue : num;
  distanceToBreakEven : num;
  potentialProfit : num
}.

Definition unitsPerLot : Q := 100.

Definition accumulate_step (start : Q) (st : Q * Q * list Row) (r : Q * Q)
  : Q * Q * list Row :=
  let '(cl, cc, out) := st in
  let (p, l) := r in
  let cl' := cl + l in
  let cc' := cc + p * l * unitsPerLot in
  let be := ndiv cc' (cl' * unitsPerLot) in
  (cl', cc',
   out ++ [mkRow p l cl' cc' be
                 (nmul (nsub (Fin p) be) (Fin (cl' * unitsPerLot)))
                 (nabs (nsub (Fin p) be))
                 (nmul (nsub (Fin start) be) (Fin (cl' * unitsPerLot)))]).

Definition accumulate_spec (rows : list (Q * Q)) (start : Q) : list Row :=
  snd (fold_left (accumulate_step start) rows (0, 0, [])).

(** The rows of a frame: the eight columns read side by side. *)
Fixpoint filas_de (ps ls las cas : list Q) (bes fls pss gps : list num) : list Row :=
  match ps, ls, las, cas, bes, fls, pss, gps with
  | p :: ps', l :: ls', la :: las', ca :: cas',
    be :: bes', fl :: fls', pd :: pss', gp :: gps' =>
      mkRow p l la ca be fl pd gp :: filas_de ps' ls' las' cas' bes' fls' pss' gps'
  | _, _, _, _, _, _, _, _ => []
  end.

Definition filas (df : DataFrame) : list Row :=
  filas_de (Precio df) (Lotes df) (Lotes_Acumulados df) (Costo_Acumulado df)
           (Break_Even df) (Flotante df) (Puntos_de_salida df)
           (Ganancia_Potencial df).

(** The row that the column formulas of [calcular_acumulados] give at a
    position whose running totals are [cl] and [cc], and the rows of the
    positions after given totals. *)
Definition fila_de_totales (start p l cl cc : Q) : Row :=
  let be := ndiv cc (cl * LOTES_A_UNIDADES) in
  mkRow p l cl cc be
        (nmul (nsub (Fin p) be) (Fin (cl * LOTES_A_UNIDADES)))
        (nabs (nsub (Fin p) be))
        (nmul (nsub (Fin start) be) (Fin (cl * LOTES_A_UNIDADES))).

Fixpoint filas_desde (start cl cc : Q) (ps ls : list Q) : list Row :=
  match ps, ls with
  | p :: ps', l :: ls' =>
      let cl' := cl + l in
      let cc' := cc + p * l * LOTES_A_UNIDADES in
      fila_de_totales start p l cl' cc' :: filas_desde start cl' cc' ps' ls'
  | _, _ => []
  end.

(** Rows equal as values. *)
Definition row_eq (a b : Row) : Prop :=
  price a == price b /\ lot a == lot b /\
  cumulativeLot a == cumulativeLot b /\ cumulativeCost a == cumulativeCost b /\
  num_eq (breakEven a) (breakEven b) /\
  num_eq (floatingValue a) (floatingValue b) /\
  num_eq (distanceToBreakEven a) (distanceToBreakEven b) /\
  num_eq (potentialProfit a) (potentialProfit b).

(** Sum of a list of rationals. *)
Definition suma (l : list Q) : Q := fold_right Qplus 0 l.

(** A column is non-decreasing from each entry to the next. *)
Fixpoint no_decreciente (l : list Q) : Prop :=
  match l with
  | [] => True
  | x :: r => match r with [] => True | y :: _ => x <= y end /\ no_decreciente r
  end.

(** The derived fields of a row follow the formulas of the specification
    from the row's own price and running totals. *)
Definition fila_coherente (start : Q) (r : Row) : Prop :=
  breakEven r = ndiv (cumulativeCost r) (cumulativeLot r * unitsPerLot) /\
  floatingValue r =
    nmul (nsub (Fin (price r)) (breakEven r)) (Fin (cumulativeLot r * unitsPerLot)) /\
  distanceToBreakEven r = nabs (nsub (Fin (price r)) (breakEven r)) /\
  potentialProfit r =
    nmul (nsub (Fin start) (breakEven r)) (Fin (cumulativeLot r * unitsPerLot)).

(** The cost column that is summed: [price * lot * unitsPerLot] per row. *)
Definition costos (ps ls : list Q) : list Q :=
  map2 (fun p l => p * l * unitsPerLot) ps ls.


(** The lots that [asignar_lotes] can return: the raw values of the
    cascade over the divisor. *)
Definition lotes_posibles : list Q :=
  map (fun lote => lote / DIVISOR_LOTE) [0.0; 0.5; 0.625; 1.5; 2.0; 3.375; 6.0].








(** * Properties *)

(** ** Comparisons *)

Lemma Qle_bool_false (x y : Q) : Qle_bool x y = false -> y < x.
Proof.
  intros H. apply Qnot_le_lt. intros Hle.
  apply Qle_bool_iff in Hle. congruence.
Qed.

Lemma Qeq_bool_false (x y : Q) : Qeq_bool x y = false -> ~ x == y.
Proof. apply Qeq_bool_neq. Qed.

Lemma entre_iff (a b d : Q) : entre a b d = true <-> a <= d <= b.
Proof.
  unfold entre. rewrite andb_true_iff, !Qle_bool_iff. tauto.
Qed.

(** Turns every boolean comparison of the context into its proposition. *)
Ltac comparaciones :=
  repeat match goal with
  | H : _ && _ = true |- _ => apply andb_true_iff in H; destruct H
  | H : _ && _ = false |- _ => apply andb_false_iff in H; destruct H
  | H : _ || _ = true |- _ => apply orb_true_iff in H; destruct H
  | H : _ || _ = false |- _ => apply orb_false_iff in H; destruct H
  | H : negb _ = true |- _ => apply negb_true_iff in H
  | H : negb _ = false |- _ => apply negb_false_iff in H
  | H : Qle_bool _ _ = true |- _ => apply Qle_bool_iff in H
  | H : Qle_bool _ _ = false |- _ => apply Qle_bool_false in H
  | H : Qeq_bool _ _ = true |- _ => apply Qeq_bool_iff in H
  | H : Qeq_bool _ _ = false |- _ => apply Qeq_bool_false in H
  | H : entre _ _ _ = true |- _ => apply entre_iff in H
  end.

(** ** The allocator *)

Lemma Qle_bool_comp_l (x y a : Q) : x == y -> Qle_bool x a = Qle_bool y a.
Proof. intros E. apply Qleb_comp; [exact E | reflexivity]. Qed.

Lemma Qle_bool_comp_r (x y a : Q) : x == y -> Qle_bool a x = Qle_bool a y.
Proof. intros E. apply Qleb_comp; [reflexivity | exact E]. Qed.

Lemma Qeq_bool_comp_l (x y a : Q) : x == y -> Qeq_bool x a = Qeq_bool y a.
Proof. intros E. apply Qeqb_comp; [exact E | reflexivity]. Qed.

Lemma lote_bruto_comp (x y : Q) : x == y -> lote_bruto x = lote_bruto y.
Proof.
  intros E. unfold lote_bruto.
  now rewrite !(Qle_bool_comp_l x y), !(Qle_bool_comp_r x y), !(Qeq_bool_comp_l x y).
Qed.


Lemma lote_bruto_rama (d : Q) : lote_bruto d = lote_de_rama (rama d).
Proof.
  unfold lote_bruto, rama.
  repeat match goal with
  | |- context [if ?b then _ else _] => destruct b
  end; reflexivity.
Qed.

(** The cascade of the code and the first-match reading of the rule table
    give the same raw lot. *)
Lemma lote_bruto_tabla (d : Q) : lote_bruto d = primera_coincidencia tabla_reglas d.
Proof.
  unfold lote_bruto, tabla_reglas, primera_coincidencia, lote_por_defecto, entre.
  destruct (Qle_bool 0 d && Qle_bool d 15); [reflexivity|].
  destruct (Qeq_bool d 20); [reflexivity|].
  destruct (Qeq_bool d 25 || Qeq_bool d 30); [reflexivity|].
  destruct (Qle_bool 35 d && Qle_bool d 55) eqn:E35.
  - destruct (Qeq_bool d 55); reflexivity.
  - simpl. destruct (Qeq_bool d 55) eqn:E55; [|reflexivity].
    exfalso. comparaciones; lra.
Qed.

Lemma asignar_lotes_length (start : Q) (precios : list Q) :
  length (asignar_lotes start precios) = length precios.
Proof. unfold asignar_lotes. now rewrite !length_map. Qed.

Lemma DIVISOR_LOTE_pos : 0 < DIVISOR_LOTE.
Proof. reflexivity. Qed.

Lemma lote_bruto_nonneg (d : Q) : 0 <= lote_bruto d.
Proof.
  rewrite lote_bruto_rama. destruct (rama d); vm_compute; discriminate.
Qed.

Lemma asignar_lotes_nonneg (start : Q) (precios : list Q) :
  Forall (fun l => 0 <= l) (asignar_lotes start precios).
Proof.
  unfold asignar_lotes. rewrite map_map. apply Forall_map, Forall_forall.
  intros p _. apply Qle_shift_div_l; [exact DIVISOR_LOTE_pos|].
  setoid_replace (0 * DIVISOR_LOTE) with 0 by ring. apply lote_bruto_nonneg.
Qed.

(** Closes one leaf of the cascade: the conjuncts whose value is the leaf's
    hold by computation, the others have a condition the leaf excludes. *)
Ltac cerrar_caso :=
  comparaciones; repeat split; intros; try reflexivity; exfalso;
  repeat match goal with H : _ \/ _ |- _ => destruct H end;
  try lra; tauto.

(** The table of the specification, condition by condition. *)
Lemma lote_bruto_casos (d : Q) :
  (0 <= d <= 15 -> lote_bruto d = 0.5) /\
  (d == 20 -> lote_bruto d = 0.0) /\
  (d == 25 \/ d == 30 -> lote_bruto d = 2.0) /\
  (35 <= d <= 55 -> ~ d == 55 -> lote_bruto d = 0.625) /\
  (d == 55 -> lote_bruto d = 0.0) /\
  (d == 60 -> lote_bruto d = 6.0) /\
  (65 <= d <= 90 -> lote_bruto d = 2.0) /\
  (91 <= d <= 94 -> lote_bruto d = 1.5) /\
  (95 <= d <= 120 -> lote_bruto d = 3.375) /\
  (~ (0 <= d <= 15) -> ~ d == 20 -> ~ d == 25 -> ~ d == 30 ->
   ~ (35 <= d <= 55) -> ~ d == 60 -> ~ (65 <= d <= 90) ->
   ~ (91 <= d <= 94) -> ~ (95 <= d <= 120) -> lote_bruto d = 0.5).
Proof.
  unfold lote_bruto.
  destruct (Qle_bool 0 d && Qle_bool d 15) eqn:E1; [cerrar_caso|].
  destruct (Qeq_bool d 20) eqn:E2; [cerrar_caso|].
  destruct (Qeq_bool d 25 || Qeq_bool d 30) eqn:E3; [cerrar_caso|].
  destruct (Qle_bool 35 d && Qle_bool d 55) eqn:E4.
  { destruct (Qeq_bool d 55) eqn:E5; cerrar_caso. }
  destruct (Qeq_bool d 60) eqn:E6; [cerrar_caso|].
  destruct (Qle_bool 65 d && Qle_bool d 90) eqn:E7; [cerrar_caso|].
  destruct (Qle_bool 91 d && Qle_bool d 94) eqn:E8; [cerrar_caso|].
  destruct (Qle_bool 95 d && Qle_bool d 120) eqn:E9; cerrar_caso.
Qed.

(** C1: for every starting price and every sequence of prices,
    [asignar_lotes] returns one lot per price, in the same order and of the
    same length; the lot of a price is the raw lot that the ordered,
    first-match-wins rule table gives for the distance [start - price]
    (0..15 -> 0.5, 20 -> 0, 25 or 30 -> 2, 35..55 except 55 -> 0.625,
    55 -> 0, 60 -> 6, 65..90 -> 2, 91..94 -> 1.5, 95..120 -> 3.375, anything
    else -> 0.5), divided by the divisor 1.5932, zero and default values
    included. *)
Theorem asignar_lotes_tabla (start : Q) (prices : list Q) :
  length (asignar_lotes start prices) = length prices /\
  asignar_lotes start prices = allocateLots_spec start prices /\
  (forall i : nat,
     nth_error (asignar_lotes start prices) i =
     option_map (fun p => lote_bruto (start - p) / DIVISOR_LOTE) (nth_error prices i)) /\
  (forall d : Q,
     lote_bruto d = primera_coincidencia tabla_reglas d /\
     (0 <= d <= 15 -> lote_bruto d = 0.5) /\
     (d == 20 -> lote_bruto d = 0.0) /\
     (d == 25 \/ d == 30 -> lote_bruto d = 2.0) /\
     (35 <= d <= 55 -> ~ d == 55 -> lote_bruto d = 0.625) /\
     (d == 55 -> lote_bruto d = 0.0) /\
     (d == 60 -> lote_bruto d = 6.0) /\
     (65 <= d <= 90 -> lote_bruto d = 2.0) /\
     (91 <= d <= 94 -> lote_bruto d = 1.5) /\
     (95 <= d <= 120 -> lote_bruto d = 3.375) /\
     (~ (0 <= d <= 15) -> ~ d == 20 -> ~ d == 25 -> ~ d == 30 ->
      ~ (35 <= d <= 55) -> ~ d == 60 -> ~ (65 <= d <= 90) ->
      ~ (91 <= d <= 94) -> ~ (95 <= d <= 120) -> lote_bruto d = 0.5)) /\
  DIVISOR_LOTE == 15932 # 10000.
Proof.
  split; [apply asignar_lotes_length|].
  split.
  { unfold asignar_lotes, allocateLots_spec. rewrite map_map.
    apply map_ext. intros p. now rewrite lote_bruto_tabla. }
  split.
  { intros i. unfold asignar_lotes. rewrite map_map, nth_error_map. reflexivity. }
  split; [|reflexivity].
  intros d. split; [apply lote_bruto_tabla | apply lote_bruto_casos].
Qed.

(** C4: at the boundary distance 55 the final lot is exactly 0 (not
    0.625 / 1.5932) although 55 lies inside the range 35..55; distance 20
    also yields 0; distance 60 yields 6.0 / 1.5932. *)
Theorem lotes_en_fronteras (start price : Q) :
  (start - price == 55 ->
   exists l, asignar_lotes start [price] = [l] /\ l == 0 /\
             ~ l == 0.625 / DIVISOR_LOTE) /\
  (start - price == 20 ->
   exists l, asignar_lotes start [price] = [l] /\ l == 0) /\
  (start - price == 60 ->
   asignar_lotes start [price] = [6.0 / DIVISOR_LOTE] /\
   6.0 / DIVISOR_LOTE == 6.0 / 1.5932).
Proof.
  unfold asignar_lotes; simpl. split; [|split].
  - intros E. rewrite (lote_bruto_comp _ _ E).
    exists (lote_bruto 55 / DIVISOR_LOTE).
    split; [reflexivity | split; [reflexivity | vm_compute; discriminate]].
  - intros E. rewrite (lote_bruto_comp _ _ E).
    exists (lote_bruto 20 / DIVISOR_LOTE). split; reflexivity.
  - intros E. rewrite (lote_bruto_comp _ _ E). split; reflexivity.
Qed.

Lemma lotes_en_fronteras_witness :
  (exists l, asignar_lotes 2700 [2645] = [l] /\ l == 0 /\
             ~ l == 0.625 / DIVISOR_LOTE) /\
  (exists l, asignar_lotes 2700 [2680] = [l] /\ l == 0) /\
  (asignar_lotes 2700 [2640] = [6.0 / DIVISOR_LOTE] /\
   6.0 / DIVISOR_LOTE == 6.0 / 1.5932).
Proof.
  split; [|split].
  - apply (proj1 (lotes_en_fronteras 2700 2645)). reflexivity.
  - apply (proj1 (proj2 (lotes_en_fronteras 2700 2680))). reflexivity.
  - apply (proj2 (proj2 (lotes_en_fronteras 2700 2640))). reflexivity.
Defined.

(** ** The ladder *)

Lemma generar_precios_Some (start : Q) (total paso : Z) :
  paso <> 0%Z ->
  generar_precios start total paso =
  Some (map (fun i : nat => start - inject_Z (Z.of_nat i * paso))
            (seq 0 (Z.to_nat (total / paso + 1)))).
Proof.
  intros H. unfold generar_precios.
  destruct (Z.eqb_spec paso 0); [contradiction | reflexivity].
Qed.









(** ** Values with special cases *)

Lemma num_eq_refl (a : num) : num_eq a a.
Proof. destruct a; simpl; auto. reflexivity. Qed.

Lemma ndiv_comp (a a' b b' : Q) :
  a == a' -> b == b' -> num_eq (ndiv a b) (ndiv a' b').
Proof.
  intros Ea Eb. unfold ndiv.
  rewrite (Qeq_bool_comp_l b b' 0 Eb), (Qeq_bool_comp_l a a' 0 Ea),
          (Qle_bool_comp_r a a' 0 Ea).
  destruct (Qeq_bool b' 0).
  - destruct (Qeq_bool a' 0); [exact I|]. destruct (Qle_bool 0 a'); exact I.
  - simpl. now rewrite Ea, Eb.
Qed.

Lemma inf_por_comp (s : bool) (y y' : Q) :
  y == y' -> num_eq (inf_por s y) (inf_por s y').
Proof.
  intros E. unfold inf_por.
  rewrite (Qeq_bool_comp_l y y' 0 E), (Qle_bool_comp_r y y' 0 E).
  apply num_eq_refl.
Qed.

Lemma nsub_comp (a a' b b' : num) :
  num_eq a a' -> num_eq b b' -> num_eq (nsub a b) (nsub a' b').
Proof.
  destruct a, a', b, b'; simpl; intros Ea Eb; try contradiction; try exact I.
  now rewrite Ea, Eb.
Qed.

Lemma nmul_comp (a a' b b' : num) :
  num_eq a a' -> num_eq b b' -> num_eq (nmul a b) (nmul a' b').
Proof.
  destruct a, a', b, b'; simpl; intros Ea Eb; try contradiction; try exact I;
    try (now apply inf_por_comp).
  now rewrite Ea, Eb.
Qed.

Lemma nabs_comp (a a' : num) : num_eq a a' -> num_eq (nabs a) (nabs a').
Proof.
  destruct a, a'; simpl; intros E; try contradiction; try exact I.
  now rewrite E.
Qed.

Lemma ndiv_finito (a b : Q) : es_finito (ndiv a b) = false <-> b == 0.
Proof.
  unfold ndiv. destruct (Qeq_bool b 0) eqn:E.
  - apply Qeq_bool_iff in E. split; [intros _; exact E | intros _].
    destruct (Qeq_bool a 0); [reflexivity|]. destruct (Qle_bool 0 a); reflexivity.
  - apply Qeq_bool_false in E. simpl. split; [discriminate | contradiction].
Qed.


Lemma ndiv_NaN (a b : Q) : a == 0 -> b == 0 -> ndiv a b = NaN.
Proof.
  intros Ha Hb. unfold ndiv.
  now rewrite (Qeq_eq_bool _ _ Ha), (Qeq_eq_bool _ _ Hb).
Qed.

(** ** Columns *)

Lemma cumsum_desde_length (a : Q) (l : list Q) :
  length (cumsum_desde a l) = length l.
Proof. revert a. induction l; intros; simpl; [|rewrite IHl]; reflexivity. Qed.

Lemma cumsum_length (l : list Q) : length (cumsum l) = length l.
Proof. destruct l; simpl; [|rewrite cumsum_desde_length]; reflexivity. Qed.

Lemma map2_length {A B C : Type} (f : A -> B -> C) (l : list A) (m : list B) :
  length l = length m -> length (map2 f l m) = length l.
Proof.
  revert m. induction l; destruct m; simpl; intros H; try discriminate; auto.
Qed.

Lemma crear_dataframe_Some (precios lotes : list Q) (df : DataFrame) :
  crear_dataframe precios lotes = Some df ->
  length precios = length lotes /\ df = mkDF precios lotes [] [] [] [] [] [].
Proof.
  unfold crear_dataframe. destruct (Nat.eqb_spec (length precios) (length lotes)).
  - intros H. injection H as <-. auto.
  - discriminate.
Qed.

Lemma crear_dataframe_ok (precios lotes : list Q) :
  length precios = length lotes ->
  crear_dataframe precios lotes = Some (mkDF precios lotes [] [] [] [] [] []).
Proof.
  intros H. unfold crear_dataframe. now rewrite H, Nat.eqb_refl.
Qed.

(** When the eight columns have one length, the rows carry the cumulative
    lot column as it is. *)
Lemma filas_de_cumulativeLot (ps ls las cas : list Q) (bes fls pss gps : list num) :
  length ls = length ps /\ length las = length ps /\ length cas = length ps /\
  length bes = length ps /\ length fls = length ps /\ length pss = length ps /\
  length gps = length ps ->
  map cumulativeLot (filas_de ps ls las cas bes fls pss gps) = las.
Proof.
  revert ls las cas bes fls pss gps.
  induction ps as [|p ps IH];
    intros [|l ls] [|la las] [|ca cas] [|be bes] [|fl fls] [|pd pss] [|gp gps];
    cbn [length]; intros (H1 & H2 & H3 & H4 & H5 & H6 & H7);
    try discriminate; [reflexivity|].
  cbn [filas_de map cumulativeLot]. f_equal. apply IH.
  repeat split; congruence.
Qed.

(** ** The accumulator, row by row *)

(** The eight columns at and after a position, read as rows, are the rows
    that the running totals determine. *)
Lemma columnas_filas_desde (start : Q) (ps ls : list Q) :
  forall cl cc : Q,
  let las := cumsum_desde cl ls in
  let cas := cumsum_desde cc (map2 (fun p l => p * l * LOTES_A_UNIDADES) ps ls) in
  let bes := map2 (fun c la => ndiv c (la * LOTES_A_UNIDADES)) cas las in
  let ds := map2 (fun p be => nsub (Fin p) be) ps bes in
  filas_de ps ls las cas bes
           (map2 (fun d la => nmul d (Fin (la * LOTES_A_UNIDADES))) ds las)
           (map nabs ds)
           (map2 (fun d la => nmul d (Fin (la * LOTES_A_UNIDADES)))
                 (map (fun be => nsub (Fin start) be) bes) las)
  = filas_desde start cl cc ps ls.
Proof.
  revert ls. induction ps as [|p ps IH]; intros [|l ls] cl cc; try reflexivity.
  cbv zeta in *. simpl. f_equal. apply IH.
Qed.

Lemma filas_calcular_acumulados (start : Q) (ps ls : list Q) :
  filas (calcular_acumulados (mkDF ps ls [] [] [] [] [] []) start) =
  match ps, ls with
  | p :: ps', l :: ls' =>
      fila_de_totales start p l l (p * l * LOTES_A_UNIDADES)
      :: filas_desde start l (p * l * LOTES_A_UNIDADES) ps' ls'
  | _, _ => []
  end.
Proof.
  destruct ps as [|p ps], ls as [|l ls]; try reflexivity.
  unfold filas, calcular_acumulados. simpl. f_equal.
  apply (columnas_filas_desde start ps ls l (p * l * LOTES_A_UNIDADES)).
Qed.

Lemma filas_desde_length (start : Q) (ps ls : list Q) :
  length ps = length ls ->
  forall cl cc, length (filas_desde start cl cc ps ls) = length ps.
Proof.
  revert ls. induction ps as [|p ps IH]; intros [|l ls] H cl cc;
    try discriminate; simpl; auto.
Qed.

Lemma fila_de_totales_comp (start p l cl cc cl' cc' : Q) :
  cl == cl' -> cc == cc' ->
  row_eq (fila_de_totales start p l cl cc) (fila_de_totales start p l cl' cc').
Proof.
  intros El Ec. unfold fila_de_totales, row_eq.
  cbn [price lot cumulativeLot cumulativeCost breakEven floatingValue
       distanceToBreakEven potentialProfit].
  assert (Ebe : num_eq (ndiv cc (cl * LOTES_A_UNIDADES))
                       (ndiv cc' (cl' * LOTES_A_UNIDADES))).
  { apply ndiv_comp; [exact Ec | now rewrite El]. }
  assert (Em : num_eq (Fin (cl * LOTES_A_UNIDADES)) (Fin (cl' * LOTES_A_UNIDADES))).
  { simpl. now rewrite El. }
  split; [reflexivity|]. split; [reflexivity|].
  split; [exact El|]. split; [exact Ec|]. split; [exact Ebe|].
  split; [|split].
  - apply nmul_comp; [apply nsub_comp; [apply num_eq_refl | exact Ebe] | exact Em].
  - apply nabs_comp, nsub_comp; [apply num_eq_refl | exact Ebe].
  - apply nmul_comp; [apply nsub_comp; [apply num_eq_refl | exact Ebe] | exact Em].
Qed.

Lemma filas_desde_comp (start : Q) (ps ls : list Q) :
  forall cl cc cl' cc', cl == cl' -> cc == cc' ->
  Forall2 row_eq (filas_desde start cl cc ps ls) (filas_desde start cl' cc' ps ls).
Proof.
  revert ls. induction ps as [|p ps IH]; intros [|l ls] cl cc cl' cc' El Ec;
    simpl; try constructor.
  - apply fila_de_totales_comp; [now rewrite El | now rewrite Ec].
  - apply IH; [now rewrite El | now rewrite Ec].
Qed.

(** The fold of the specification, unrolled. *)
Lemma fold_accumulate_step (start : Q) (ps ls : list Q) :
  forall cl cc out,
  snd (fold_left (accumulate_step start) (combine ps ls) (cl, cc, out)) =
  out ++ filas_desde start cl cc ps ls.
Proof.
  revert ls. induction ps as [|p ps IH]; intros [|l ls] cl cc out; simpl;
    try (now rewrite app_nil_r).
  rewrite IH, <- app_assoc. reflexivity.
Qed.

Lemma accumulate_spec_filas_desde (start : Q) (ps ls : list Q) :
  accumulate_spec (combine ps ls) start = filas_desde start 0 0 ps ls.
Proof. unfold accumulate_spec. now rewrite fold_accumulate_step. Qed.

Lemma fila_de_totales_coherente (start p l cl cc : Q) :
  fila_coherente start (fila_de_totales start p l cl cc).
Proof. repeat split. Qed.

Lemma filas_desde_coherente (start : Q) (ps ls : list Q) :
  forall cl cc, Forall (fila_coherente start) (filas_desde start cl cc ps ls).
Proof.
  revert ls. induction ps as [|p ps IH]; intros [|l ls] cl cc; simpl;
    constructor; [apply fila_de_totales_coherente | apply IH].
Qed.

Lemma filas_desde_columnas (start : Q) (ps ls : list Q) :
  length ps = length ls ->
  forall cl cc,
  map price (filas_desde start cl cc ps ls) = ps /\
  map lot (filas_desde start cl cc ps ls) = ls.
Proof.
  revert ls. induction ps as [|p ps IH]; intros [|l ls] H cl cc;
    try discriminate; simpl; [auto|].
  injection H as H.
  destruct (IH ls H (cl + l) (cc + p * l * LOTES_A_UNIDADES)) as [-> ->]. auto.
Qed.

(** Exposes the head of the sums of a non-empty prefix. *)
Ltac simpl_sumas :=
  unfold fila_de_totales, suma, costos, unitsPerLot, LOTES_A_UNIDADES;
  cbn [cumulativeLot cumulativeCost map2 firstn fold_right].

(** The running totals of row [i] are the sums of the first [i + 1] lots
    and costs on top of the totals carried in. *)
Lemma filas_desde_sumas (start : Q) (ps ls : list Q) :
  forall cl cc i r,
  nth_error (filas_desde start cl cc ps ls) i = Some r ->
  cumulativeLot r == cl + suma (firstn (S i) ls) /\
  cumulativeCost r == cc + suma (firstn (S i) (costos ps ls)).
Proof.
  revert ls. induction ps as [|p ps IH]; intros [|l ls] cl cc i r H;
    try (destruct i; discriminate).
  destruct i as [|i].
  - injection H as <-. simpl_sumas. split; ring.
  - apply IH in H. destruct H as [Hl Hc]. rewrite Hl, Hc.
    simpl_sumas. split; ring.
Qed.

(** C3: [calcular_acumulados] is a left-to-right fold over the (price, lot)
    rows: in input order, the cumulative lot of a row is the running sum of
    the lots, the cumulative cost the running sum of price * lot * 100, the
    break-even the cumulative cost over (cumulative lot * 100), the floating
    value (price - break-even) * (cumulative lot * 100), the distance
    |price - break-even| and the potential profit
    (start - break-even) * (cumulative lot * 100). *)
Theorem calcular_acumulados_pliegue
  (precios lotes : list Q) (df : DataFrame) (start : Q) :
  crear_dataframe precios lotes = Some df ->
  let t := calcular_acumulados df start in
  Forall2 row_eq (filas t) (accumulate_spec (combine precios lotes) start) /\
  length (filas t) = length precios /\
  map price (filas t) = precios /\
  map lot (filas t) = lotes /\
  Precio t = precios /\
  Lotes t = lotes /\
  Forall (fila_coherente start) (filas t) /\
  (forall i r,
     nth_error (filas t) i = Some r ->
     cumulativeLot r == suma (firstn (S i) lotes) /\
     cumulativeCost r == suma (firstn (S i) (costos precios lotes))) /\
  unitsPerLot == 100.
Proof.
  intros Hdf. apply crear_dataframe_Some in Hdf. destruct Hdf as [Hlen ->].
  cbv zeta. rewrite filas_calcular_acumulados, accumulate_spec_filas_desde.
  destruct precios as [|p ps], lotes as [|l ls]; try discriminate.
  { do 7 (split; [first [reflexivity | constructor]|]).
    split; [|reflexivity]. intros [|i] r H; discriminate. }
  injection Hlen as Hlen.
  pose proof (filas_desde_columnas start ps ls Hlen l (p * l * LOTES_A_UNIDADES))
    as [Hp Hl].
  split.
  { simpl. constructor.
    - apply fila_de_totales_comp; ring.
    - apply filas_desde_comp; ring. }
  split; [simpl; now rewrite filas_desde_length|].
  split; [simpl; now rewrite Hp|].
  split; [simpl; now rewrite Hl|].
  split; [reflexivity|]. split; [reflexivity|].
  split.
  { constructor; [apply fila_de_totales_coherente | apply filas_desde_coherente]. }
  split; [|reflexivity].
  intros [|i] r H.
  - injection H as <-. simpl_sumas. split; ring.
  - cbn [nth_error] in H. apply filas_desde_sumas in H. destruct H as [Hsl Hsc].
    rewrite Hsl, Hsc. simpl_sumas. split; ring.
Qed.

(** ** Rounding *)

Lemma rint_cotas (q : Q) : (Qfloor q <= rint q <= Qfloor q + 1)%Z.
Proof.
  unfold rint. destruct (Qcompare (q - inject_Z (Qfloor q)) (1 # 2));
    [destruct (Z.even (Qfloor q))| |]; lia.
Qed.

Lemma rint_mono (x y : Q) : x <= y -> (rint x <= rint y)%Z.
Proof.
  intros Hxy. pose proof (Qfloor_resp_le x y Hxy) as Hf.
  pose proof (rint_cotas x) as Hx. pose proof (rint_cotas y) as Hy.
  destruct (Z.eq_dec (Qfloor x) (Qfloor y)) as [E | N]; [|lia].
  clear Hx Hy Hf. unfold rint. rewrite <- E.
  destruct (Qcompare (x - inject_Z (Qfloor x)) (1 # 2)) eqn:Cx;
  destruct (Qcompare (y - inject_Z (Qfloor x)) (1 # 2)) eqn:Cy;
    try (destruct (Z.even (Qfloor x))); try lia; exfalso;
    repeat match goal with
    | H : Qcompare _ _ = Eq |- _ => apply Qeq_alt in H
    | H : Qcompare _ _ = Lt |- _ => apply Qlt_alt in H
    | H : Qcompare _ _ = Gt |- _ => apply Qgt_alt in H
    end; lra.
Qed.

Lemma rint_entero (z : Z) : rint (inject_Z z) = z.
Proof.
  unfold rint. rewrite Qfloor_Z.
  replace (Qcompare (inject_Z z - inject_Z z) (1 # 2)) with Lt; [reflexivity|].
  symmetry. apply Qlt_alt.
  setoid_replace (inject_Z z - inject_Z z) with 0 by ring. reflexivity.
Qed.

Lemma potencia_de_diez_pos (k : nat) : 0 < inject_Z (10 ^ Z.of_nat k).
Proof.
  change 0 with (inject_Z 0). rewrite <- Zlt_Qlt.
  apply Z.pow_pos_nonneg; lia.
Qed.

Lemma redondear_mono (k : nat) (x y : Q) :
  x <= y -> redondear k x <= redondear k y.
Proof.
  intros H. unfold redondear, Qdiv.
  pose proof (potencia_de_diez_pos k) as Hp.
  apply Qmult_le_compat_r.
  - rewrite <- Zle_Qle. apply rint_mono.
    apply Qmult_le_compat_r; [exact H | now apply Qlt_le_weak].
  - apply Qinv_le_0_compat. now apply Qlt_le_weak.
Qed.

(** ** Monotone columns *)

Lemma no_decreciente_cumsum_desde (a : Q) (l : list Q) :
  Forall (fun x => 0 <= x) l -> no_decreciente (a :: cumsum_desde a l).
Proof.
  revert a. induction l as [|x l IH]; intros a H; [simpl; auto|].
  inversion H as [|? ? Hx Hl]; subst.
  change (a <= a + x /\ no_decreciente ((a + x) :: cumsum_desde (a + x) l)).
  split; [lra | now apply IH].
Qed.

Lemma no_decreciente_cumsum (l : list Q) :
  Forall (fun x => 0 <= x) l -> no_decreciente (cumsum l).
Proof.
  destruct l as [|x l]; [simpl; auto|]. intros H.
  inversion H; subst. now apply no_decreciente_cumsum_desde.
Qed.

Lemma no_decreciente_map (f : Q -> Q) (l : list Q) :
  (forall x y, x <= y -> f x <= f y) ->
  no_decreciente l -> no_decreciente (map f l).
Proof.
  intros Hf. induction l as [|x l IH]; [auto|].
  intros [H0 H1]. split; [|now apply IH].
  destruct l as [|y l]; [exact I | now apply Hf].
Qed.

(** ** Invariants of the running totals *)

Lemma por_unidades_cero (cl : Q) : cl * LOTES_A_UNIDADES == 0 <-> cl == 0.
Proof. unfold LOTES_A_UNIDADES. split; intros H; lra. Qed.

Lemma filas_desde_division (start : Q) (ps ls : list Q) :
  forall cl cc,
  Forall (fun r => es_finito (breakEven r) = false <-> cumulativeLot r == 0)
         (filas_desde start cl cc ps ls).
Proof.
  revert ls. induction ps as [|p ps IH]; intros [|l ls] cl cc; simpl;
    constructor; [|apply IH].
  unfold fila_de_totales; cbn [breakEven cumulativeLot].
  rewrite ndiv_finito. apply por_unidades_cero.
Qed.

(** With lots that are not negative, a running total of lots that is zero
    has been zero all along, and the running cost with it. *)
Lemma filas_desde_cero (start : Q) (ps ls : list Q) :
  Forall (fun l => 0 <= l) ls ->
  forall cl cc, 0 <= cl -> (cl == 0 -> cc == 0) ->
  Forall (fun r => cumulativeLot r == 0 -> cl == 0 /\ breakEven r = NaN)
         (filas_desde start cl cc ps ls).
Proof.
  revert ls. induction ps as [|p ps IH]; intros [|l ls] Hls cl cc Hcl Hcc; simpl;
    try constructor.
  - unfold fila_de_totales; cbn [breakEven cumulativeLot].
    inversion Hls; subst. intros E.
    assert (E0 : cl == 0) by lra. assert (El : l == 0) by lra.
    split; [exact E0|]. apply ndiv_NaN.
    + rewrite (Hcc E0), El. ring.
    + rewrite E. ring.
  - inversion Hls as [|? ? Hl Hls']; subst.
    assert (H := IH ls Hls' (cl + l) (cc + p * l * LOTES_A_UNIDADES)).
    eapply Forall_impl; [|apply H].
    + cbv beta. intros r Hr E. destruct (Hr E) as [E1 E2].
      split; [lra | exact E2].
    + lra.
    + intros E. assert (E0 : cl == 0) by lra. assert (El : l == 0) by lra.
      rewrite (Hcc E0), El. ring.
Qed.



(** ** The frame through [main] *)

Lemma iloc_ultimo_Some {A : Type} (l : list A) :
  (0 < length l)%nat -> exists x, iloc_ultimo l = Some x.
Proof.
  induction l as [|x l IH]; simpl; [lia|]. intros _.
  destruct l as [|y l]; [now exists x|]. apply IH. simpl. lia.
Qed.

Lemma iloc_ultimo_app {A : Type} (l : list A) (x : A) :
  iloc_ultimo (l ++ [x]) = Some x.
Proof.
  induction l as [|y l IH]; [reflexivity|].
  destruct l as [|z l]; [reflexivity|]. exact IH.
Qed.

Lemma calcular_acumulados_longitudes (ps ls : list Q) (start : Q) :
  length ps = length ls ->
  let t := calcular_acumulados (mkDF ps ls [] [] [] [] [] []) start in
  Precio t = ps /\ Lotes t = ls /\
  length (Lotes_Acumulados t) = length ps /\
  length (Costo_Acumulado t) = length ps /\
  length (Break_Even t) = length ps /\
  length (Flotante t) = length ps /\
  length (Puntos_de_salida t) = length ps /\
  length (Ganancia_Potencial t) = length ps.
Proof.
  intros H. unfold calcular_acumulados; cbn [Precio Lotes Lotes_Acumulados
    Costo_Acumulado Break_Even Flotante Puntos_de_salida Ganancia_Potencial].
  assert (Hla : length (cumsum ls) = length ps) by (now rewrite cumsum_length).
  assert (Hca : length (cumsum (map2 (fun precio lote => precio * lote * LOTES_A_UNIDADES)
                                     ps ls)) = length ps)
    by (now rewrite cumsum_length, map2_length).
  assert (Hbe : length (map2 (fun costo la => ndiv costo (la * LOTES_A_UNIDADES))
                   (cumsum (map2 (fun precio lote => precio * lote * LOTES_A_UNIDADES)
                                 ps ls)) (cumsum ls)) = length ps)
    by (rewrite map2_length; congruence).
  assert (Hd : length (map2 (fun precio be => nsub (Fin precio) be) ps
                 (map2 (fun costo la => ndiv costo (la * LOTES_A_UNIDADES))
                   (cumsum (map2 (fun precio lote => precio * lote * LOTES_A_UNIDADES)
                                 ps ls)) (cumsum ls))) = length ps)
    by (rewrite map2_length; congruence).
  repeat split; try assumption.
  - rewrite map2_length; congruence.
  - now rewrite length_map.
  - rewrite map2_length; rewrite length_map; congruence.
Qed.

(** What [calcular] does, stage by stage: the ladder, the frame before and
    after rounding, and the verdict of the validation on the rounded
    frame. *)
Lemma calcular_etapas (total paso : Z) (start : Q) :
  paso <> 0%Z ->
  exists precios df0,
    generar_precios start total paso = Some precios /\
    crear_dataframe precios (asignar_lotes start precios) = Some df0 /\
    let df := redondear_columnas (calcular_acumulados df0 start) in
    calcular total paso start =
    match validar_precio_final df (start - inject_Z total) with
    | None => None
    | Some (true, errores) =>
        match iloc_ultimo (Break_Even df), iloc_ultimo (Flotante df),
              iloc_ultimo (Ganancia_Potencial df), iloc_ultimo (Lotes_Acumulados df)
        with
        | Some be, Some fl, Some gp, Some la =>
            Some (errores ++ [Tabla df;
                              Resumen (nredondear 2 be) (nredondear 2 fl)
                                      (nredondear 2 gp) (redondear 4 la)])
        | _, _, _, _ => None
        end
    | Some (false, errores) => Some errores
    end.
Proof.
  intros Hp. eexists. eexists.
  split; [apply generar_precios_Some; exact Hp|].
  split; [apply crear_dataframe_ok; now rewrite asignar_lotes_length|].
  cbv zeta. unfold calcular.
  rewrite (generar_precios_Some start total paso Hp). cbn [bind].
  rewrite asignar_lotes_length, Nat.eqb_refl. cbn [negb].
  rewrite crear_dataframe_ok by (now rewrite asignar_lotes_length). cbn [bind].
  destruct (validar_precio_final _ _) as [[[|] errores]|]; reflexivity.
Qed.

Lemma validar_precio_final_Some (df : DataFrame) (esperado : Q) :
  (0 < length (Precio df))%nat ->
  exists b errores, validar_precio_final df esperado = Some (b, errores).
Proof.
  intros H. unfold validar_precio_final.
  destruct (iloc_ultimo_Some _ H) as [u ->].
  destruct (negb (Qeq_bool u esperado)); eauto.
Qed.

(** No stage of the pipeline raises when the step is positive and the span
    is not negative. *)
Lemma calcular_total (total paso : Z) (start : Q) :
  (0 <= total)%Z -> (0 < paso)%Z ->
  exists msgs, calcular total paso start = Some msgs.
Proof.
  intros Ht Hp.
  destruct (calcular_etapas total paso start) as (ps & df0 & Hg & Hdf & ->); [lia|].
  rewrite generar_precios_Some in Hg by lia. injection Hg as <-.
  apply crear_dataframe_Some in Hdf. destruct Hdf as [Hlen ->].
  set (ps := map _ _) in *.
  assert (Hn : (0 < length ps)%nat).
  { unfold ps. rewrite length_map, length_seq.
    assert (0 <= total / paso)%Z by (apply Z.div_pos; lia). lia. }
  destruct (calcular_acumulados_longitudes ps (asignar_lotes start ps) start Hlen)
    as (HP & HL & Hla & Hca & Hbe & Hfl & Hpd & Hgp).
  set (t := calcular_acumulados _ _) in *.
  destruct (validar_precio_final_Some (redondear_columnas t) (start - inject_Z total))
    as (b & errores & ->).
  { cbn [redondear_columnas Precio]. now rewrite length_map, HP. }
  destruct b; [|eauto].
  cbn [redondear_columnas Break_Even Flotante Ganancia_Potencial Lotes_Acumulados].
  destruct (iloc_ultimo_Some (map (nredondear 2) (Break_Even t))) as [x1 ->];
    [now rewrite length_map, Hbe|].
  destruct (iloc_ultimo_Some (map (nredondear 2) (Flotante t))) as [x2 ->];
    [now rewrite length_map, Hfl|].
  destruct (iloc_ultimo_Some (map (nredondear 2) (Ganancia_Potencial t))) as [x3 ->];
    [now rewrite length_map, Hgp|].
  destruct (iloc_ultimo_Some (map (redondear 4) (Lotes_Acumulados t))) as [x4 ->];
    [now rewrite length_map, Hla|].
  eauto.
Qed.

(** C6: the break-even division meets a zero divisor exactly at the rows
    whose cumulative lot is zero; with lots that are not negative this
    needs the very first lot to be zero; the row then carries NaN as its
    break-even (a result, not an exception), every input row has its output
    row, and the chained stages return a result for every positive step and
    non-negative span. *)
Theorem break_even_division_por_cero :
  (forall (precios lotes : list Q) (df : DataFrame) (start : Q),
     crear_dataframe precios lotes = Some df ->
     let t := calcular_acumulados df start in
     length (filas t) = length precios /\
     Forall (fun r => es_finito (breakEven r) = false <-> cumulativeLot r == 0)
            (filas t) /\
     (Forall (fun l => 0 <= l) lotes ->
      Forall (fun r => cumulativeLot r == 0 ->
                       (exists l0, nth_error lotes 0 = Some l0 /\ l0 == 0) /\
                       breakEven r = NaN)
             (filas t))) /\
  (forall (total paso : Z) (start : Q),
     (0 <= total)%Z -> (0 < paso)%Z ->
     (exists precios, generar_precios start total paso = Some precios /\
                      (0 < length precios)%nat) /\
     (exists msgs, calcular total paso start = Some msgs)) /\
  (forall (df : DataFrame) (esperado : Q),
     (0 < length (Precio df))%nat ->
     exists b errores, validar_precio_final df esperado = Some (b, errores)).
Proof.
  split; [|split].
  - intros precios lotes df start Hdf.
    apply crear_dataframe_Some in Hdf. destruct Hdf as [Hlen ->].
    cbv zeta. rewrite filas_calcular_acumulados.
    destruct precios as [|p ps], lotes as [|l ls]; try discriminate.
    { split; [reflexivity|]. split; [constructor|]. intros _. constructor. }
    injection Hlen as Hlen.
    split; [simpl; now rewrite filas_desde_length|].
    split.
    { constructor; [|apply filas_desde_division].
      unfold fila_de_totales; cbn [breakEven cumulativeLot].
      rewrite ndiv_finito. apply por_unidades_cero. }
    intros Hls. inversion Hls as [|? ? Hl Hls']; subst.
    constructor.
    + unfold fila_de_totales; cbn [breakEven cumulativeLot]. intros E.
      split; [exists l; split; [reflexivity | exact E]|].
      apply ndiv_NaN; rewrite E; ring.
    + eapply Forall_impl;
        [|apply (filas_desde_cero start ps ls Hls' l (p * l * LOTES_A_UNIDADES))].
      * cbv beta. intros r Hr E. destruct (Hr E) as [E1 E2].
        split; [exists l; split; [reflexivity | exact E1] | exact E2].
      * exact Hl.
      * intros E. rewrite E. ring.
  - intros total paso start Ht Hp. split; [|now apply calcular_total].
    eexists. split; [apply generar_precios_Some; lia|].
    rewrite length_map, length_seq.
    assert (0 <= total / paso)%Z by (apply Z.div_pos; lia). lia.
  - intros df esperado H. now apply validar_precio_final_Some.
Qed.

Lemma break_even_division_por_cero_witness :
  (Forall (fun r => cumulativeLot r == 0 ->
                    (exists l0, nth_error [0; 1] 0 = Some l0 /\ l0 == 0) /\
                    breakEven r = NaN)
          (filas (calcular_acumulados (mkDF [10; 5] [0; 1] [] [] [] [] [] []) 10))) /\
  (exists msgs, calcular 120 5 2700 = Some msgs) /\
  (exists b errores,
     validar_precio_final (mkDF [10; 5] [0; 1] [] [] [] [] [] []) 5 = Some (b, errores)).
Proof.
  split; [|split].
  - apply (proj1 break_even_division_por_cero [10; 5] [0; 1] _ 10 eq_refl).
    repeat constructor; discriminate.
  - apply (proj1 (proj2 break_even_division_por_cero) 120%Z 5%Z 2700); lia.
  - apply (proj2 (proj2 break_even_division_por_cero)). simpl. lia.
Defined.

Lemma calcular_Tabla (total paso : Z) (start : Q) (msgs : list Mensaje) (df : DataFrame) :
  paso <> 0%Z ->
  calcular total paso start = Some msgs -> In (Tabla df) msgs ->
  exists precios df0,
    generar_precios start total paso = Some precios /\
    crear_dataframe precios (asignar_lotes start precios) = Some df0 /\
    df = redondear_columnas (calcular_acumulados df0 start).
Proof.
  intros Hp Hc Hin.
  destruct (calcular_etapas total paso start Hp) as (ps & df0 & Hg & Hdf & E).
  exists ps, df0. split; [exact Hg|]. split; [exact Hdf|].
  cbv zeta in E. rewrite E in Hc. clear E.
  unfold validar_precio_final in Hc.
  destruct (iloc_ultimo (Precio _)) as [u|]; [|discriminate].
  destruct (negb (Qeq_bool u (start - inject_Z total))).
  - injection Hc as <-. destruct Hin as [H | []]. discriminate.
  - destruct (iloc_ultimo (Break_Even _)); [|discriminate].
    destruct (iloc_ultimo (Flotante _)); [|discriminate].
    destruct (iloc_ultimo (Ganancia_Potencial _)); [|discriminate].
    destruct (iloc_ultimo (Lotes_Acumulados _)); [|discriminate].
    injection Hc as <-. cbn [app] in Hin.
    destruct Hin as [H | [H | []]]; [|discriminate].
    injection H as <-. reflexivity.
Qed.

(** At 2700 the pipeline shows the table and the summary. *)
Lemma main_2700 : exists df r, main 2700 = Some [Tabla df; r].
Proof. vm_compute. eexists. eexists. reflexivity. Qed.

(** C7: for every starting price, across the rows of the full pipeline the
    cumulative lot does not decrease from a row to the next, every lot of
    [asignar_lotes] being at least 0; this holds before and after the
    rounding of the column. *)
Theorem lotes_acumulados_no_decrecen (start : Q) :
  (forall precios : list Q,
     Forall (fun l => 0 <= l) (asignar_lotes start precios) /\
     exists df,
       crear_dataframe precios (asignar_lotes start precios) = Some df /\
       no_decreciente (Lotes_Acumulados (calcular_acumulados df start)) /\
       no_decreciente (map cumulativeLot (filas (calcular_acumulados df start))) /\
       no_decreciente
         (Lotes_Acumulados (redondear_columnas (calcular_acumulados df start)))) /\
  (forall msgs df,
     main start = Some msgs -> In (Tabla df) msgs ->
     length (Lotes_Acumulados df) = 25%nat /\
     no_decreciente (Lotes_Acumulados df)).
Proof.
  assert (G : forall precios : list Q,
            no_decreciente (cumsum (asignar_lotes start precios))).
  { intros precios. apply no_decreciente_cumsum, asignar_lotes_nonneg. }
  split.
  - intros precios. split; [apply asignar_lotes_nonneg|].
    eexists. split; [apply crear_dataframe_ok; now rewrite asignar_lotes_length|].
    split; [apply G|]. split.
    + replace (map cumulativeLot _) with (cumsum (asignar_lotes start precios));
        [apply G|].
      unfold filas, calcular_acumulados;
        cbn [Precio Lotes Lotes_Acumulados Costo_Acumulado Break_Even Flotante
             Puntos_de_salida Ganancia_Potencial].
      symmetry. apply filas_de_cumulativeLot.
      pose proof (calcular_acumulados_longitudes precios (asignar_lotes start precios)
                    start) as L.
      rewrite asignar_lotes_length in L. specialize (L eq_refl).
      cbv zeta in L. unfold calcular_acumulados in L;
        cbn [Precio Lotes Lotes_Acumulados Costo_Acumulado Break_Even Flotante
             Puntos_de_salida Ganancia_Potencial] in L.
      destruct L as (_ & _ & L1 & L2 & L3 & L4 & L5 & L6).
      rewrite L1, L2, L3, L4, L5, L6, asignar_lotes_length. repeat split.
    + cbn [redondear_columnas Lotes_Acumulados].
      apply no_decreciente_map; [apply redondear_mono | apply G].
  - intros msgs df Hm Hin.
    destruct (calcular_Tabla TOTAL_UNIDADES PASO start msgs df) as (ps & df0 & Hg & Hdf & ->);
      [discriminate | exact Hm | exact Hin |].
    apply crear_dataframe_Some in Hdf. destruct Hdf as [Hlen ->].
    cbn [redondear_columnas Lotes_Acumulados calcular_acumulados Lotes].
    rewrite generar_precios_Some in Hg by discriminate. injection Hg as <-.
    split.
    + rewrite length_map, cumsum_length, asignar_lotes_length. reflexivity.
    + apply no_decreciente_map; [apply redondear_mono | apply G].
Qed.

Lemma lotes_acumulados_no_decrecen_witness :
  exists msgs df,
    main 2700 = Some msgs /\ In (Tabla df) msgs /\
    length (Lotes_Acumulados df) = 25%nat /\
    no_decreciente (Lotes_Acumulados df).
Proof.
  destruct main_2700 as (df & r & E).
  exists [Tabla df; r], df.
  split; [exact E|]. split; [now left|].
  apply (proj2 (lotes_acumulados_no_decrecen 2700) [Tabla df; r] df);
    [exact E | now left].
Defined.

Lemma calcular_acumulados_pliegue_witness :
  let t := calcular_acumulados (mkDF [10; 5] [1; 2] [] [] [] [] [] []) 10 in
  Forall2 row_eq (filas t) (accumulate_spec (combine [10; 5] [1; 2]) 10) /\
  length (filas t) = 2%nat /\
  Forall (fila_coherente 10) (filas t).
Proof.
  pose proof (calcular_acumulados_pliegue [10; 5] [1; 2]
                (mkDF [10; 5] [1; 2] [] [] [] [] [] []) 10 eq_refl) as H.
  cbv zeta in *. destruct H as (H1 & H2 & _ & _ & _ & _ & H3 & _).
  split; [exact H1|]. split; [exact H2 | exact H3].
Defined.



(** ** The validation *)

Lemma rint_comp (x y : Q) : x == y -> rint x = rint y.
Proof.
  intros E. unfold rint. rewrite (Qfloor_comp x y E).
  replace (Qcompare (x - inject_Z (Qfloor y)) (1 # 2))
    with (Qcompare (y - inject_Z (Qfloor y)) (1 # 2)); [reflexivity|].
  apply Qcompare_comp; [now rewrite E | reflexivity].
Qed.

(** Rounding a rounded value changes nothing. *)
Lemma redondear_idem (k : nat) (q : Q) :
  redondear k (redondear k q) == redondear k q.
Proof.
  pose proof (potencia_de_diez_pos k) as Hp.
  unfold redondear at 1.
  rewrite (rint_comp (redondear k q * inject_Z (10 ^ Z.of_nat k))
                     (inject_Z (rint (q * inject_Z (10 ^ Z.of_nat k))))).
  - rewrite rint_entero. reflexivity.
  - unfold redondear. field. intros E. rewrite E in Hp. discriminate Hp.
Qed.

(** The last level of the ladder of [main], before any rounding, is the
    expected final price: the validation of the frame as computed passes
    for every starting price. *)
Lemma validar_sin_redondeo (start : Q) :
  exists precios df0,
    generar_precios start TOTAL_UNIDADES PASO = Some precios /\
    crear_dataframe precios (asignar_lotes start precios) = Some df0 /\
    validar_precio_final (calcular_acumulados df0 start)
                         (start - inject_Z TOTAL_UNIDADES) = Some (true, []).
Proof.
  eexists. eexists.
  split; [apply generar_precios_Some; discriminate|].
  split; [apply crear_dataframe_ok; now rewrite asignar_lotes_length|].
  unfold validar_precio_final. cbn [calcular_acumulados Precio].
  change (Z.to_nat (TOTAL_UNIDADES / PASO + 1)) with 25%nat.
  change (seq 0 25) with (seq 0 24 ++ [24%nat]).
  rewrite map_app. cbn [map]. rewrite iloc_ultimo_app.
  change (inject_Z (Z.of_nat 24 * PASO)) with (inject_Z TOTAL_UNIDADES).
  now rewrite Qeq_bool_refl.
Qed.

(** C5: [validar_precio_final] reports a failure (result [false] with an
    error message, no exception) exactly when the last price of the frame
    differs from the expected one, and returns [true] otherwise; for
    start 2700 with span 121 and step 5 the last level
    2700 - floor(121/5)*5 differs from 2700 - 121 and the failure is
    reported. *)
Theorem validar_precio_final_exacto :
  (forall (df : DataFrame) (esperado ultimo : Q),
     iloc_ultimo (Precio df) = Some ultimo ->
     (~ ultimo == esperado ->
      validar_precio_final df esperado =
      Some (false, [ErrorPrecioFinal ultimo esperado])) /\
     (ultimo == esperado ->
      validar_precio_final df esperado = Some (true, []))) /\
  (exists precios ultimo,
     generar_precios 2700 121 5 = Some precios /\
     length precios = 25%nat /\
     iloc_ultimo precios = Some ultimo /\
     ultimo == 2700 - inject_Z (121 / 5 * 5) /\
     ultimo == 2580 /\
     2700 - inject_Z 121 == 2579 /\
     forall lotes df,
       crear_dataframe precios lotes = Some df ->
       validar_precio_final (calcular_acumulados df 2700) (2700 - inject_Z 121) =
       Some (false, [ErrorPrecioFinal ultimo (2700 - inject_Z 121)])) /\
  (exists u e,
     calcular 121 5 2700 = Some [ErrorPrecioFinal u e] /\ u == 2580 /\ e == 2579).
Proof.
  split; [|split].
  - intros df esperado ultimo Hu. unfold validar_precio_final. rewrite Hu.
    split; intros H.
    + destruct (Qeq_bool ultimo esperado) eqn:E; [|reflexivity].
      apply Qeq_bool_iff in E. contradiction.
    + now rewrite (Qeq_eq_bool _ _ H).
  - eexists. eexists.
    split; [apply generar_precios_Some; discriminate|].
    change (Z.to_nat (121 / 5 + 1)) with 25%nat.
    split; [now rewrite length_map, length_seq|].
    change (seq 0 25) with (seq 0 24 ++ [24%nat]).
    rewrite map_app. cbn [map].
    split; [apply iloc_ultimo_app|].
    split; [reflexivity|]. split; [reflexivity|]. split; [reflexivity|].
    intros lotes df Hdf. apply crear_dataframe_Some in Hdf. destruct Hdf as [_ ->].
    unfold validar_precio_final. cbn [calcular_acumulados Precio].
    rewrite iloc_ultimo_app. reflexivity.
  - vm_compute. eexists. eexists. split; [reflexivity|]. split; reflexivity.
Qed.

Lemma validar_precio_final_exacto_witness :
  validar_precio_final (mkDF [10; 5] [1; 2] [] [] [] [] [] []) 6 =
    Some (false, [ErrorPrecioFinal 5 6]) /\
  validar_precio_final (mkDF [10; 5] [1; 2] [] [] [] [] [] []) 5 = Some (true, []).
Proof.
  split.
  - apply (proj1 validar_precio_final_exacto
             (mkDF [10; 5] [1; 2] [] [] [] [] [] []) 6 5 eq_refl).
    discriminate.
  - apply (proj1 validar_precio_final_exacto
             (mkDF [10; 5] [1; 2] [] [] [] [] [] []) 5 5 eq_refl).
    reflexivity.
Defined.

(** [main] reports the final-price failure exactly at the starting prices
    whose expected final price is changed by rounding to two decimals. *)
Lemma main_error_precio_final (start : Q) :
  (exists u e, main start = Some [ErrorPrecioFinal u e]) <->
  ~ redondear 2 (start - inject_Z TOTAL_UNIDADES) == start - inject_Z TOTAL_UNIDADES.
Proof.
  unfold main.
  destruct (calcular_etapas TOTAL_UNIDADES PASO start) as (ps & df0 & Hg & Hdf & E);
    [discriminate|].
  cbv zeta in E. rewrite E. clear E.
  rewrite generar_precios_Some in Hg by discriminate.
  change (Z.to_nat (TOTAL_UNIDADES / PASO + 1)) with 25%nat in Hg.
  change (seq 0 25) with (seq 0 24 ++ [24%nat]) in Hg.
  rewrite map_app in Hg. cbn [map] in Hg.
  change (inject_Z (Z.of_nat 24 * PASO)) with (inject_Z TOTAL_UNIDADES) in Hg.
  apply crear_dataframe_Some in Hdf. destruct Hdf as [_ ->].
  unfold validar_precio_final.
  cbn [redondear_columnas calcular_acumulados Precio].
  set (BE := iloc_ultimo (Break_Even _)). set (FL := iloc_ultimo (Flotante _)).
  set (GP := iloc_ultimo (Ganancia_Potencial _)).
  set (LA := iloc_ultimo (Lotes_Acumulados _)).
  clearbody BE FL GP LA.
  assert (Hu : iloc_ultimo (map (redondear 2) ps) =
               Some (redondear 2 (start - inject_Z TOTAL_UNIDADES))).
  { replace ps with (map (fun i : nat => start - inject_Z (Z.of_nat i * PASO)) (seq 0 24)
                     ++ [start - inject_Z TOTAL_UNIDADES]) by congruence.
    rewrite map_app. cbn [map]. apply iloc_ultimo_app. }
  rewrite Hu.
  destruct (Qeq_bool (redondear 2 (start - inject_Z TOTAL_UNIDADES))
                     (start - inject_Z TOTAL_UNIDADES)) eqn:Q; cbn [negb].
  - apply Qeq_bool_iff in Q. split; [|intros N; contradiction].
    intros (u & e & H). exfalso.
    destruct BE, FL, GP, LA; discriminate H.
  - apply Qeq_bool_false in Q. split; [intros _; exact Q|].
    intros _. eexists. eexists. reflexivity.
Qed.

Lemma nredondear_idem (k : nat) (a : num) :
  num_eq (nredondear k (nredondear k a)) (nredondear k a).
Proof. destruct a; simpl; try exact I. apply redondear_idem. Qed.

(** C8 (what the code does): [main] rounds the columns of the frame in
    place before it validates and before it reads the summary.  At
    2700.001 the validation therefore compares the rounded last price
    2580.00 with the expected 2580.001 and reports a failure, although the
    frame as computed ends exactly at the expected price; in general the
    failure is reported exactly when rounding to two decimals changes the
    expected final price.  Formatting a summary number that was already
    rounded gives the same digits. *)
Theorem main_valida_precios_redondeados :
  (exists u e,
     main 2700.001 = Some [ErrorPrecioFinal u e] /\ u == 2580 /\ e == 2580.001) /\
  (exists precios df0,
     generar_precios 2700.001 TOTAL_UNIDADES PASO = Some precios /\
     crear_dataframe precios (asignar_lotes 2700.001 precios) = Some df0 /\
     validar_precio_final (calcular_acumulados df0 2700.001)
                          (2700.001 - inject_Z TOTAL_UNIDADES) = Some (true, [])) /\
  (forall start : Q,
     (exists u e, main start = Some [ErrorPrecioFinal u e]) <->
     ~ redondear 2 (start - inject_Z TOTAL_UNIDADES)
       == start - inject_Z TOTAL_UNIDADES) /\
  (forall (k : nat) (a : num),
     num_eq (nredondear k (nredondear k a)) (nredondear k a)) /\
  (exists df r, main 2700 = Some [Tabla df; r]).
Proof.
  split; [|split; [|split; [|split]]].
  - vm_compute. eexists. eexists. split; [reflexivity|]. split; reflexivity.
  - apply validar_sin_redondeo.
  - apply main_error_precio_final.
  - apply nredondear_idem.
  - apply main_2700.
Qed.

(** * Further properties of the code *)

(** ** [asignar_lotes] *)



(** X2: whatever the prices, every lot returned by [asignar_lotes] is one
    of seven values (0, 0.5, 0.625, 1.5, 2, 3.375 or 6 over the divisor),
    hence lies between 0 and 6 / 1.5932. *)
Theorem asignar_lotes_valores (start : Q) (precios : list Q) :
  Forall (fun l => In l lotes_posibles /\ 0 <= l <= 6.0 / DIVISOR_LOTE)
         (asignar_lotes start precios).
Proof.
  unfold asignar_lotes. rewrite map_map. apply Forall_map, Forall_forall.
  intros p _. cbv beta. rewrite lote_bruto_rama.
  destruct (rama (start - p)); cbn [lote_de_rama]; split;
    try (unfold lotes_posibles; cbn [map In]; tauto);
    split; vm_compute; discriminate.
Qed.

(** ** [generar_precios] *)




(** ** The ladder and the validation *)





(** X5: [validar_precio_final] raises exactly on a frame without rows;
    on any other frame it returns a verdict, and it hands an error message
    to the presentation layer exactly when the verdict is [false]. *)
Theorem validar_precio_final_vacio (df : DataFrame) (esperado : Q) :
  (validar_precio_final df esperado = None <-> Precio df = []) /\
  (forall b errores,
     validar_precio_final df esperado = Some (b, errores) ->
     (b = true <-> errores = []) /\
     (b = false <-> exists u, errores = [ErrorPrecioFinal u esperado] /\
                              iloc_ultimo (Precio df) = Some u)).
Proof.
  unfold validar_precio_final. split.
  - destruct (Precio df) as [|p ps] eqn:E; [split; reflexivity|].
    destruct (iloc_ultimo_Some (p :: ps)) as [u ->]; [cbn [length]; lia|].
    destruct (negb (Qeq_bool u esperado)); split; discriminate.
  - intros b errores H.
    destruct (iloc_ultimo (Precio df)) as [u|]; [|discriminate].
    destruct (negb (Qeq_bool u esperado)); injection H as <- <-.
    + split; split; try discriminate; try (intros; reflexivity).
      intros _. exists u. split; reflexivity.
    + split; split; try discriminate; try (intros; reflexivity).
      intros (u' & H & _). discriminate H.
Qed.

(** ** The outcomes of [main] *)

(** With a ladder that is not empty the pipeline ends in one of two ways:
    the final-price error alone, or the rounded table with its summary. *)
Lemma calcular_forma (total paso : Z) (start : Q) :
  paso <> 0%Z -> (0 < total / paso + 1)%Z ->
  exists precios,
    generar_precios start total paso = Some precios /\
    let df := redondear_columnas
                (calcular_acumulados
                   (mkDF precios (asignar_lotes start precios) [] [] [] [] [] [])
                   start) in
    (exists u,
       iloc_ultimo (Precio df) = Some u /\ ~ u == start - inject_Z total /\
       calcular total paso start =
       Some [ErrorPrecioFinal u (start - inject_Z total)]) \/
    (exists u be fl gp la,
       iloc_ultimo (Precio df) = Some u /\ u == start - inject_Z total /\
       iloc_ultimo (Break_Even df) = Some be /\
       iloc_ultimo (Flotante df) = Some fl /\
       iloc_ultimo (Ganancia_Potencial df) = Some gp /\
       iloc_ultimo (Lotes_Acumulados df) = Some la /\
       calcular total paso start =
       Some [Tabla df; Resumen (nredondear 2 be) (nredondear 2 fl)
                               (nredondear 2 gp) (redondear 4 la)]).
Proof.
  intros Hp Hn.
  destruct (calcular_etapas total paso start Hp) as (ps & df0 & Hg & Hdf & E).
  exists ps. split; [exact Hg|].
  rewrite generar_precios_Some in Hg by exact Hp.
  apply crear_dataframe_Some in Hdf. destruct Hdf as [Hlen ->].
  assert (Hl : (0 < length ps)%nat).
  { replace ps with (map (fun i : nat => start - inject_Z (Z.of_nat i * paso))
                         (seq 0 (Z.to_nat (total / paso + 1)))) by congruence.
    rewrite length_map, length_seq. lia. }
  clear Hg.
  destruct (calcular_acumulados_longitudes ps (asignar_lotes start ps) start Hlen)
    as (HP & HL & Hla & Hca & Hbe & Hfl & Hpd & Hgp).
  cbv zeta in E |- *. rewrite E. clear E.
  set (t := calcular_acumulados _ _) in *.
  unfold validar_precio_final.
  cbn [redondear_columnas Precio Break_Even Flotante Ganancia_Potencial
       Lotes_Acumulados].
  destruct (iloc_ultimo_Some (map (redondear 2) (Precio t))) as [u Hu];
    [now rewrite length_map, HP|].
  rewrite Hu.
  destruct (Qeq_bool u (start - inject_Z total)) eqn:Q; cbn [negb].
  - apply Qeq_bool_iff in Q. right.
    destruct (iloc_ultimo_Some (map (nredondear 2) (Break_Even t))) as [x1 H1];
      [now rewrite length_map, Hbe|].
    destruct (iloc_ultimo_Some (map (nredondear 2) (Flotante t))) as [x2 H2];
      [now rewrite length_map, Hfl|].
    destruct (iloc_ultimo_Some (map (nredondear 2) (Ganancia_Potencial t))) as [x3 H3];
      [now rewrite length_map, Hgp|].
    destruct (iloc_ultimo_Some (map (redondear 4) (Lotes_Acumulados t))) as [x4 H4];
      [now rewrite length_map, Hla|].
    exists u, x1, x2, x3, x4. rewrite H1, H2, H3, H4.
    repeat (split; [reflexivity || assumption|]). reflexivity.
  - apply Qeq_bool_false in Q. left. exists u.
    split; [reflexivity|]. split; [exact Q | reflexivity].
Qed.

Lemma calcular_escalera_vacia (total paso : Z) (start : Q) :
  paso <> 0%Z -> (total / paso + 1 <= 0)%Z -> calcular total paso start = None.
Proof.
  intros Hp Hn. unfold calcular.
  rewrite generar_precios_Some by exact Hp.
  replace (Z.to_nat (total / paso + 1)) with 0%nat by lia. reflexivity.
Qed.

Lemma calcular_paso_cero (total : Z) (start : Q) : calcular total 0 start = None.
Proof. reflexivity. Qed.

(** X6: the body of [main], for any span and step, raises exactly when the
    step is 0 (the division in [generar_precios]) or the ladder is empty
    (the [iloc[-1]] of the validation); otherwise it shows either the
    final-price error alone or the table followed by the summary, and never
    the length-mismatch error. *)
Theorem calcular_resultados (total paso : Z) (start : Q) :
  (calcular total paso start = None <->
   paso = 0%Z \/ (total / paso + 1 <= 0)%Z) /\
  (forall msgs,
     calcular total paso start = Some msgs ->
     ~ In ErrorLongitud msgs /\
     ((exists u e, msgs = [ErrorPrecioFinal u e] /\ ~ u == e) \/
      (exists df be fl gp la,
         msgs = [Tabla df; Resumen be fl gp la] /\
         length (Precio df) = Z.to_nat (total / paso + 1)))).
Proof.
  destruct (Z.eq_dec paso 0) as [-> | Hp].
  { rewrite calcular_paso_cero. split; [tauto | discriminate]. }
  destruct (Z_lt_le_dec 0 (total / paso + 1)) as [Hn | Hn].
  - destruct (calcular_forma total paso start Hp Hn) as (ps & Hg & H).
    cbv zeta in H.
    assert (Hlen : length ps = Z.to_nat (total / paso + 1)).
    { rewrite generar_precios_Some in Hg by exact Hp.
      replace ps with (map (fun i : nat => start - inject_Z (Z.of_nat i * paso))
                           (seq 0 (Z.to_nat (total / paso + 1)))) by congruence.
      now rewrite length_map, length_seq. }
    destruct H as [(u & Hu & Hne & ->) | (u & be & fl & gp & la & _ & _ & _ & _ & _ & _ & ->)].
    + split; [split; [discriminate | lia]|].
      intros msgs H. injection H as <-. split.
      * intros [H | []]. discriminate H.
      * left. eauto.
    + split; [split; [discriminate | lia]|].
      intros msgs H. injection H as <-. split.
      * intros [H | [H | []]]; discriminate H.
      * right. do 5 eexists. split; [reflexivity|].
        cbn [redondear_columnas Precio calcular_acumulados].
        now rewrite length_map.
  - rewrite (calcular_escalera_vacia total paso start Hp Hn).
    split; [tauto | discriminate].
Qed.

Lemma calcular_resultados_witness :
  ~ In ErrorLongitud [ErrorPrecioFinal 2580.00 2579] /\
  ((exists u e, [ErrorPrecioFinal 2580.00 2579] = [ErrorPrecioFinal u e] /\ ~ u == e) \/
   (exists df be fl gp la,
      [ErrorPrecioFinal 2580.00 2579] = [Tabla df; Resumen be fl gp la] /\
      length (Precio df) = Z.to_nat (121 / 5 + 1))).
Proof.
  apply (proj2 (calcular_resultados 121 5 2700)).
  vm_compute. reflexivity.
Defined.




(** ** Identities of the accumulated rows *)

Lemma filas_coherentes (start : Q) (ps ls : list Q) :
  Forall (fila_coherente start)
         (filas (calcular_acumulados (mkDF ps ls [] [] [] [] [] []) start)).
Proof.
  rewrite filas_calcular_acumulados.
  destruct ps as [|p ps], ls as [|l ls]; try constructor.
  - apply fila_de_totales_coherente.
  - apply filas_desde_coherente.
Qed.



(** ** Buying down a descending ladder *)







(** ** The lots of the ladder *)






(** ** Independence of the price level *)








(** ** The last row and the summary *)











(** ** From one row to the next *)

(** Two rows that follow each other carry the totals forward. *)
Lemma filas_desde_consecutivas (start : Q) (ps ls : list Q) :
  forall cl cc rs1 r1 r2 rs2,
  filas_desde start cl cc ps ls = rs1 ++ r1 :: r2 :: rs2 ->
  cumulativeLot r2 = cumulativeLot r1 + lot r2 /\
  cumulativeCost r2 = cumulativeCost r1 + price r2 * lot r2 * LOTES_A_UNIDADES.
Proof.
  revert ls. induction ps as [|p ps IH]; intros [|l ls] cl cc rs1 r1 r2 rs2 H;
    try (destruct rs1; discriminate H).
  cbn [filas_desde] in H. destruct rs1 as [|x rs1]; cbn [app] in H.
  - injection H as <- H.
    destruct ps as [|p2 ps], ls as [|l2 ls]; try discriminate H.
    cbn [filas_desde] in H. injection H as <- _. split; reflexivity.
  - injection H as _ H. apply (IH _ _ _ _ _ _ _ H).
Qed.

Lemma filas_consecutivas (start : Q) (ps ls : list Q) (rs1 rs2 : list Row) (r1 r2 : Row) :
  filas (calcular_acumulados (mkDF ps ls [] [] [] [] [] []) start)
  = rs1 ++ r1 :: r2 :: rs2 ->
  cumulativeLot r2 = cumulativeLot r1 + lot r2 /\
  cumulativeCost r2 = cumulativeCost r1 + price r2 * lot r2 * LOTES_A_UNIDADES.
Proof.
  rewrite filas_calcular_acumulados.
  destruct ps as [|p ps], ls as [|l ls]; try (destruct rs1; discriminate).
  intros H. destruct rs1 as [|x rs1]; cbn [app] in H.
  - injection H as <- H.
    destruct ps as [|p2 ps], ls as [|l2 ls]; try discriminate H.
    cbn [filas_desde] in H. injection H as <- _. split; reflexivity.
  - injection H as _ H. apply (filas_desde_consecutivas _ _ _ _ _ _ _ _ _ H).
Qed.

(** X14: each row carries the totals of the row before it forward
    (cumulative lot plus the lot, cumulative cost plus price * lot * 100);
    so a level whose lot is zero, as the levels at distances 20 and 55,
    repeats the cumulative lot, the cumulative cost, the break-even and the
    potential profit of the row before it. *)
Theorem nivel_sin_lote
  (precios lotes : list Q) (df : DataFrame) (start : Q)
  (rs1 rs2 : list Row) (r1 r2 : Row) :
  crear_dataframe precios lotes = Some df ->
  filas (calcular_acumulados df start) = rs1 ++ r1 :: r2 :: rs2 ->
  (cumulativeLot r2 == cumulativeLot r1 + lot r2 /\
   cumulativeCost r2 == cumulativeCost r1 + price r2 * lot r2 * 100) /\
  (lot r2 == 0 ->
   cumulativeLot r2 == cumulativeLot r1 /\
   cumulativeCost r2 == cumulativeCost r1 /\
   num_eq (breakEven r2) (breakEven r1) /\
   num_eq (potentialProfit r2) (potentialProfit r1)).
Proof.
  intros Hdf H. apply crear_dataframe_Some in Hdf. destruct Hdf as [_ ->].
  pose proof (filas_coherentes start precios lotes) as Hco.
  rewrite H in Hco. rewrite Forall_forall in Hco.
  assert (C1 : fila_coherente start r1).
  { apply Hco, in_or_app. right. now left. }
  assert (C2 : fila_coherente start r2).
  { apply Hco, in_or_app. right. right. now left. }
  apply filas_consecutivas in H. destruct H as [El Ec].
  split; [split; [now rewrite El | now rewrite Ec]|].
  intros Hl.
  assert (El' : cumulativeLot r2 == cumulativeLot r1) by (rewrite El, Hl; ring).
  assert (Ec' : cumulativeCost r2 == cumulativeCost r1) by (rewrite Ec, Hl; ring).
  destruct C1 as (B1 & _ & _ & G1), C2 as (B2 & _ & _ & G2).
  assert (Ebe : num_eq (breakEven r2) (breakEven r1)).
  { rewrite B1, B2. apply ndiv_comp; [exact Ec' | now rewrite El']. }
  split; [exact El'|]. split; [exact Ec'|]. split; [exact Ebe|].
  rewrite G1, G2. apply nmul_comp.
  - apply nsub_comp; [apply num_eq_refl | exact Ebe].
  - cbn [num_eq]. now rewrite El'.
Qed.

Lemma nivel_sin_lote_witness :
  exists r1 r2,
    filas (calcular_acumulados (mkDF [10; 5] [1; 0] [] [] [] [] [] []) 10)
    = [] ++ r1 :: r2 :: [] /\
    lot r2 == 0 /\
    cumulativeLot r2 == cumulativeLot r1 /\
    cumulativeCost r2 == cumulativeCost r1 /\
    num_eq (breakEven r2) (breakEven r1) /\
    num_eq (potentialProfit r2) (potentialProfit r1).
Proof.
  eexists. eexists. split; [reflexivity|]. split; [reflexivity|].
  eapply (proj2 (nivel_sin_lote [10; 5] [1; 0] _ 10 [] [] _ _ eq_refl eq_refl)).
  reflexivity.
Defined.

(** ** Accuracy of the rounded table *)








(** ** Averaging down *)




